(** * The ORPort cell codec of stem (stem/client/cell.py)

    A shallow embedding of the cell classes, of the registry lookups
    [Cell.by_name] and [Cell.by_value], and of the framing functions
    [Cell._pack], [CircuitCell._pack] and [VersionsCell.pack], followed by
    the properties the specification states about them. *)

From Stdlib Require Import ZArith List String Ascii DecimalString Lia Bool.
From Stdlib.Strings Require Import Byte.
Import ListNotations.

Local Open Scope string_scope.
Local Open Scope list_scope.
Local Open Scope Z_scope.

(** ** Python values shared by the whole module *)

(** The exceptions the module can raise.  [ValueError] carries its
    formatted message; [StructError] is [struct.error], raised by
    [struct.pack] when an integer does not fit the requested field. *)
Inductive exn : Type :=
| ValueError (msg : string)
| StructError.

Inductive result (A : Type) : Type :=
| Ok (a : A)
| Raise (e : exn).

Arguments Ok {A} a.
Arguments Raise {A} e.

Definition bind {A B : Type} (r : result A) (k : A -> result B) : result B :=
  match r with
  | Ok a => k a
  | Raise e => Raise e
  end.

Notation "x <- r ;; k" := (bind r (fun x => k))
  (at level 61, r at next level, right associativity).

(** [x is None] *)
Definition is_None {A : Type} (x : option A) : bool :=
  match x with
  | None => true
  | Some _ => false
  end.

(** [len(x)] as a Python integer. *)
Definition len {A : Type} (l : list A) : Z := Z.of_nat (List.length l).

(** [str(i)] and the [%i] / [%s] rendering of an integer. *)
Definition str_of_int (i : Z) : string := NilZero.string_of_int (Z.to_int i).

(** ** Field codec: [struct.pack] with the formats of [stem.client.Pack] *)

Module Pack.

(** Modelled from the spec: the [Pack] formats imported from
    [stem.client] are not part of these sources; the specification
    describes them as big-endian unsigned fields of 1, 2 and 4 bytes. *)
Inductive format : Type := CHAR | SHORT | LONG.

Definition size (f : format) : nat :=
  match f with
  | CHAR => 1
  | SHORT => 2
  | LONG => 4
  end.

End Pack.

(** Modelled from the spec: [ZERO], the zero-fill byte imported from
    [stem.client]. *)
Definition ZERO : byte := x00.

Definition byte_of_Z (z : Z) : byte :=
  match Byte.of_N (Z.to_N (z mod 256)) with
  | Some b => b
  | None => x00
  end.

Definition Z_of_byte (b : byte) : Z := Z.of_N (Byte.to_N b).

(** The [n] low-order bytes of [v], most significant first. *)
Fixpoint be_bytes (n : nat) (v : Z) : list byte :=
  match n with
  | O => []
  | S k => byte_of_Z (Z.shiftr v (8 * Z.of_nat k)) :: be_bytes k v
  end.

(** The unsigned integer a big-endian byte string denotes. *)
Definition be_value (l : list byte) : Z :=
  fold_left (fun acc b => acc * 256 + Z_of_byte b) l 0.

Definition fits (f : Pack.format) (v : Z) : bool :=
  (0 <=? v) && (v <? 2 ^ (8 * Z.of_nat (Pack.size f))).

(** [struct.pack(fmt, v)] for one unsigned big-endian field: the integer
    must lie in the range of the field, otherwise [struct.error]. *)
Definition struct_pack (f : Pack.format) (v : Z) : result (list byte) :=
  if fits f v then Ok (be_bytes (Pack.size f) v) else Raise StructError.

(** ** The cell classes *)

(** Every class the module defines: the two abstract bases and the
    eighteen commands, in source order. *)
Inductive cell_class : Type :=
| Cell
| CircuitCell
| PaddingCell
| CreateCell
| CreatedCell
| RelayCell
| DestroyCell
| CreateFastCell
| CreatedFastCell
| VersionsCell
| NetinfoCell
| RelayEarlyCell
| Create2Cell
| Created2Cell
| PaddingNegotiateCell
| VPaddingCell
| CertsCell
| AuthChallengeCell
| AuthenticateCell
| AuthorizeCell.

(** The direct base class written in each [class] statement; [None] for
    [Cell], whose base is the namedtuple. *)
Definition base (cls : cell_class) : option cell_class :=
  match cls with
  | Cell => None
  | CircuitCell => Some Cell
  | CreateCell | CreatedCell | RelayCell | DestroyCell | CreateFastCell
  | CreatedFastCell | RelayEarlyCell | Create2Cell => Some CircuitCell
  | PaddingCell | VersionsCell | NetinfoCell | Created2Cell
  | PaddingNegotiateCell | VPaddingCell | CertsCell | AuthChallengeCell
  | AuthenticateCell | AuthorizeCell => Some Cell
  end.

(** [issubclass(cls, CircuitCell)]: the class hierarchy has depth two. *)
Definition for_circuit (cls : cell_class) : bool :=
  match cls with
  | CircuitCell => true
  | _ =>
      match base cls with
      | Some CircuitCell => true
      | _ => false
      end
  end.

(** The class attributes, resolved through inheritance: a class that
    does not assign an attribute sees the one of [Cell]. *)
Definition NAME (cls : cell_class) : string :=
  match cls with
  | Cell | CircuitCell => "UNKNOWN"
  | PaddingCell => "PADDING"
  | CreateCell => "CREATE"
  | CreatedCell => "CREATED"
  | RelayCell => "RELAY"
  | DestroyCell => "DESTROY"
  | CreateFastCell => "CREATE_FAST"
  | CreatedFastCell => "CREATED_FAST"
  | VersionsCell => "VERSIONS"
  | NetinfoCell => "NETINFO"
  | RelayEarlyCell => "RELAY_EARLY"
  | Create2Cell => "CREATE2"
  | Created2Cell => "CREATED2"
  | PaddingNegotiateCell => "PADDING_NEGOTIATE"
  | VPaddingCell => "VPADDING"
  | CertsCell => "CERTS"
  | AuthChallengeCell => "AUTH_CHALLENGE"
  | AuthenticateCell => "AUTHENTICATE"
  | AuthorizeCell => "AUTHORIZE"
  end.

Definition VALUE (cls : cell_class) : Z :=
  match cls with
  | Cell | CircuitCell => -1
  | PaddingCell => 0
  | CreateCell => 1
  | CreatedCell => 2
  | RelayCell => 3
  | DestroyCell => 4
  | CreateFastCell => 5
  | CreatedFastCell => 6
  | VersionsCell => 7
  | NetinfoCell => 8
  | RelayEarlyCell => 9
  | Create2Cell => 10
  | Created2Cell => 11
  | PaddingNegotiateCell => 12
  | VPaddingCell => 128
  | CertsCell => 129
  | AuthChallengeCell => 130
  | AuthenticateCell => 131
  | AuthorizeCell => 132
  end.

Definition IS_FIXED_SIZE (cls : cell_class) : bool :=
  match cls with
  | Cell | CircuitCell => false
  | PaddingCell | CreateCell | CreatedCell | RelayCell | DestroyCell
  | CreateFastCell | CreatedFastCell | NetinfoCell | RelayEarlyCell
  | Create2Cell | Created2Cell | PaddingNegotiateCell => true
  | VersionsCell | VPaddingCell | CertsCell | AuthChallengeCell
  | AuthenticateCell | AuthorizeCell => false
  end.

(** The eighteen command classes, [PaddingCell] to [AuthorizeCell], in
    source order. *)
Definition commands : list cell_class :=
  [ PaddingCell; CreateCell; CreatedCell; RelayCell; DestroyCell;
    CreateFastCell; CreatedFastCell; VersionsCell; NetinfoCell;
    RelayEarlyCell; Create2Cell; Created2Cell; PaddingNegotiateCell;
    VPaddingCell; CertsCell; AuthChallengeCell; AuthenticateCell;
    AuthorizeCell ].

(** The metadata the specification calls a command descriptor:
    name, wire value, fixed-size flag, circuit-scoped flag. *)
Definition descriptor (cls : cell_class) : string * Z * bool * bool :=
  (NAME cls, VALUE cls, IS_FIXED_SIZE cls, for_circuit cls).

(** ** The module namespace scanned by the lookups *)

(** What [inspect.getmembers(sys.modules[__name__])] yields: the objects
    bound at module level.  Only the cell classes carry the attributes
    [NAME] and [VALUE]; the imported modules, [Pack], [UNDEFINED], [ZERO]
    and the interpreter's module attributes do not. *)
Inductive member : Type :=
| ClassMember (cls : cell_class)
| OtherMember.

(** The members paired with their names, in the order [getmembers]
    returns them: sorted by name. *)
Definition module_members : list (string * member) :=
  [ ("AuthChallengeCell", ClassMember AuthChallengeCell);
    ("AuthenticateCell", ClassMember AuthenticateCell);
    ("AuthorizeCell", ClassMember AuthorizeCell);
    ("Cell", ClassMember Cell);
    ("CertsCell", ClassMember CertsCell);
    ("CircuitCell", ClassMember CircuitCell);
    ("Create2Cell", ClassMember Create2Cell);
    ("CreateCell", ClassMember CreateCell);
    ("CreateFastCell", ClassMember CreateFastCell);
    ("Created2Cell", ClassMember Created2Cell);
    ("CreatedCell", ClassMember CreatedCell);
    ("CreatedFastCell", ClassMember CreatedFastCell);
    ("DestroyCell", ClassMember DestroyCell);
    ("NetinfoCell", ClassMember NetinfoCell);
    ("Pack", OtherMember);
    ("PaddingCell", ClassMember PaddingCell);
    ("PaddingNegotiateCell", ClassMember PaddingNegotiateCell);
    ("RelayCell", ClassMember RelayCell);
    ("RelayEarlyCell", ClassMember RelayEarlyCell);
    ("UNDEFINED", OtherMember);
    ("VPaddingCell", ClassMember VPaddingCell);
    ("VersionsCell", ClassMember VersionsCell);
    ("ZERO", OtherMember);
    ("__builtins__", OtherMember);
    ("__doc__", OtherMember);
    ("__file__", OtherMember);
    ("__name__", OtherMember);
    ("__package__", OtherMember);
    ("collections", OtherMember);
    ("inspect", OtherMember);
    ("struct", OtherMember);
    ("sys", OtherMember) ].

(** [getattr(m, 'NAME', UNDEFINED)] and [getattr(m, 'VALUE', UNDEFINED)]:
    [None] stands for the default, returned when the attribute is
    missing. *)
Definition getattr_NAME (m : member) : option string :=
  match m with
  | ClassMember cls => Some (NAME cls)
  | OtherMember => None
  end.

Definition getattr_VALUE (m : member) : option Z :=
  match m with
  | ClassMember cls => Some (VALUE cls)
  | OtherMember => None
  end.

Fixpoint sorted_names (l : list string) : bool :=
  match l with
  | a :: (b :: _) as tl => String.ltb a b && sorted_names tl
  | _ => true
  end.

(** ** [Cell]: lookups and the generic framer *)

Module Cell.

Section Lookup.

(** [stem.UNDEFINED], the sentinel used as [getattr] default.  It is
    a string defined outside these sources, so the lookups are
    parameterised by it. *)
Variable UNDEFINED : string.

(** [name == getattr(cls, 'NAME', UNDEFINED)] *)
Definition name_matches (name : string) (m : member) : bool :=
  match getattr_NAME m with
  | Some n => String.eqb name n
  | None => String.eqb name UNDEFINED
  end.

Definition by_name (name : string) : result member :=
  match find (fun nm => name_matches name (snd nm)) module_members with
  | Some nm => Ok (snd nm)
  | None => Raise (ValueError ("'" ++ name ++ "' isn't a valid cell type")%string)
  end.

End Lookup.

(** [value == getattr(cls, 'VALUE', UNDEFINED)] for an integer [value]:
    an integer never equals the string sentinel. *)
Definition value_matches (value : Z) (m : member) : bool :=
  match getattr_VALUE m with
  | Some v => value =? v
  | None => false
  end.

Definition by_value (value : Z) : result member :=
  match find (fun nm => value_matches value (snd nm)) module_members with
  | Some nm => Ok (snd nm)
  | None =>
      Raise (ValueError ("'" ++ str_of_int value
                         ++ "' isn't a valid cell value")%string)
  end.

(** The message of the [ValueError] raised for an oversized cell. *)
Definition too_large (cls : cell_class) (cell_len fixed_cell_len : Z) : exn :=
  ValueError ("Payload of " ++ NAME cls ++ " is too large ("
              ++ str_of_int cell_len ++ " bytes), must be less than "
              ++ str_of_int fixed_cell_len)%string.

(** [Cell._pack(link_version, payload, circ_id = 0)], a classmethod:
    [cls] is the class it is bound to. *)
Definition _pack (cls : cell_class) (link_version : Z) (payload : list byte)
    (circ_id : Z) : result (list byte) :=
  packed_circ_id <-
    struct_pack (if link_version >? 3 then Pack.LONG else Pack.SHORT) circ_id ;;
  packed_command <- struct_pack Pack.CHAR (VALUE cls) ;;
  packed_size <-
    (if IS_FIXED_SIZE cls then Ok [] else struct_pack Pack.SHORT (len payload)) ;;
  let cell := packed_circ_id ++ packed_command ++ packed_size ++ payload in
  if IS_FIXED_SIZE cls then
    let fixed_cell_len := if link_version >? 3 then 514 else 512 in
    if len cell >? fixed_cell_len then
      Raise (too_large cls (len cell) fixed_cell_len)
    else
      Ok (cell ++ repeat ZERO (Z.to_nat (fixed_cell_len - len cell)))
  else
    Ok cell.

End Cell.

(** ** [CircuitCell]: the circuit-id rule *)

Module CircuitCell.

(** [CircuitCell._pack(link_version, payload, circ_id)]; [circ_id] is
    [None] or an integer.  The final call is written [Cell._pack(...)]:
    the classmethod is fetched from the class [Cell], so it runs bound
    to [Cell] and not to [cls]. *)
Definition _pack (cls : cell_class) (link_version : Z) (payload : list byte)
    (circ_id : option Z) : result (list byte) :=
  if is_None circ_id && String.prefix "CREATE" (NAME cls) then
    (* 0x80000000 if link_version > 3 else 0x01 *)
    let circ_id := if link_version >? 3 then 2147483648 else 1 in
    Cell._pack Cell link_version payload circ_id
  else
    Raise (ValueError (NAME cls ++ " cells require a circ_id")%string).

End CircuitCell.

(** Method resolution for [cls._pack]: the subclasses of [CircuitCell]
    inherit its override, every other class the one of [Cell], whose
    [circ_id] defaults to [0] when the caller leaves it out. *)
Definition cls_pack (cls : cell_class) (link_version : Z) (payload : list byte)
    (circ_id : option Z) : result (list byte) :=
  if for_circuit cls then CircuitCell._pack cls link_version payload circ_id
  else
    Cell._pack cls link_version payload
      (match circ_id with Some i => i | None => 0 end).

(** ** [VersionsCell] *)

Module VersionsCell.

(** [b''.join([struct.pack(Pack.SHORT, v) for v in versions])] *)
Fixpoint join_shorts (versions : list Z) : result (list byte) :=
  match versions with
  | [] => Ok []
  | v :: rest =>
      b <- struct_pack Pack.SHORT v ;;
      bs <- join_shorts rest ;;
      Ok (b ++ bs)
  end.

(** [VersionsCell.pack(versions)]: [cls._pack(3, payload)], with the
    default [circ_id] of [Cell._pack]. *)
Definition pack (versions : list Z) : result (list byte) :=
  payload <- join_shorts versions ;;
  Cell._pack VersionsCell 3 payload 0.

End VersionsCell.

(** Widths and lengths derived from the link version, as the framer
    computes them inline. *)
Definition id_format (link_version : Z) : Pack.format :=
  if link_version >? 3 then Pack.LONG else Pack.SHORT.

Definition id_width (link_version : Z) : nat := Pack.size (id_format link_version).

Definition fixed_cell_len (link_version : Z) : nat :=
  if link_version >? 3 then 514%nat else 512%nat.

(** The bytes in front of the payload of a fixed-size cell. *)
Definition header (cls : cell_class) (link_version circ_id : Z) : list byte :=
  be_bytes (id_width link_version) circ_id ++ be_bytes 1 (VALUE cls).

(** ** Decoding *)

(** The logical message of the specification: a command, a circuit id
    that is present exactly for circuit-scoped commands, a payload. *)
Record cell : Type := mk_cell {
  command : cell_class;
  circuit_id : option Z;
  payload : list byte
}.

(** Framing a logical cell with the generic framer: the circuit id is
    passed when the cell has one, and left to its default otherwise. *)
Definition pack_cell (link_version : Z) (c : cell) : result (list byte) :=
  Cell._pack (command c) link_version (payload c)
    (match circuit_id c with Some i => i | None => 0 end).

Inductive unpack_error : Type :=
| UnknownCommandError (value : Z)
| TruncatedCellError.

Inductive unpacked : Type :=
| Decoded (c : cell) (consumed : nat)
| Failed (e : unpack_error).

(** Modelled from the spec: the registry as a static table of the
    eighteen commands, looked up by wire value (the lookup the decoder
    uses; the source only has the reflective scans of [Cell]). *)
Definition lookup_by_value (value : Z) : option cell_class :=
  find (fun cls => VALUE cls =? value) commands.

(** Modelled from the spec: [unpack], the decoder the module overview
    announces but cell.py does not define.  It follows the five steps of
    the specification: read the circuit id (2 or 4 bytes), read and
    resolve the command byte, take the rest of the fixed frame or the
    declared number of bytes as payload, and report the bytes consumed.
    The specification assumes the buffer starts with a complete cell; a
    buffer too short for the frame it announces is reported as
    truncated. *)
Definition unpack (link_version : Z) (buf : list byte) : unpacked :=
  match nth_error buf (id_width link_version) with
  | None => Failed TruncatedCellError
  | Some command_byte =>
      let circ_id := be_value (firstn (id_width link_version) buf) in
      let rest := skipn (S (id_width link_version)) buf in
      match lookup_by_value (Z_of_byte command_byte) with
      | None => Failed (UnknownCommandError (Z_of_byte command_byte))
      | Some cls =>
          let id := if for_circuit cls then Some circ_id else None in
          if IS_FIXED_SIZE cls then
            let n := (fixed_cell_len link_version - S (id_width link_version))%nat in
            if (List.length rest <? n)%nat then Failed TruncatedCellError
            else Decoded (mk_cell cls id (firstn n rest))
                   (fixed_cell_len link_version)
          else
            if (List.length rest <? 2)%nat then Failed TruncatedCellError
            else
              let declared_length := Z.to_nat (be_value (firstn 2 rest)) in
              let body := skipn 2 rest in
              if (List.length body <? declared_length)%nat
              then Failed TruncatedCellError
              else Decoded (mk_cell cls id (firstn declared_length body))
                     (id_width link_version + 3 + declared_length)
      end
  end.

(** The zero padding a fixed-size frame carries after a payload. *)
Definition padding (link_version : Z) (cls : cell_class) (p : list byte)
    : list byte :=
  if IS_FIXED_SIZE cls then
    repeat ZERO
      (fixed_cell_len link_version - S (id_width link_version)
       - List.length p)%nat
  else [].

(** The invariant of a logical cell: a circuit id exactly when the
    command is circuit-scoped. *)
Definition well_formed (c : cell) : bool :=
  Bool.eqb (is_None (circuit_id c)) (negb (for_circuit (command c))).

(** The payload fits the framing of its command: the rest of the fixed
    frame, or what a two-byte length can announce. *)
Definition within_capacity (link_version : Z) (c : cell) : bool :=
  if IS_FIXED_SIZE (command c) then
    (S (id_width link_version) + List.length (payload c)
     <=? fixed_cell_len link_version)%nat
  else fits Pack.SHORT (len (payload c)).

(** The name test restricted to the cell classes. *)
Definition class_name_matches (name : string) (m : member) : bool :=
  match m with
  | ClassMember cls => String.eqb name (NAME cls)
  | OtherMember => false
  end.

(** ** stem/directory.py: cutting a downloaded file into entries *)

(** The whitespace [str.strip()] removes, among the code points below
    256: tab to carriage return, the four separators 28..31, the space,
    NEL and the no-break space. *)
Definition is_space (c : ascii) : bool :=
  let n := nat_of_ascii c in
  ((9 <=? n) && (n <=? 13) || (28 <=? n) && (n <=? 32)
   || (n =? 133) || (n =? 160))%nat.

Fixpoint lstrip (s : string) : string :=
  match s with
  | EmptyString => EmptyString
  | String c rest => if is_space c then lstrip rest else s
  end.

Fixpoint rstrip (s : string) : string :=
  match s with
  | EmptyString => EmptyString
  | String c rest =>
      match rstrip rest with
      | EmptyString => if is_space c then EmptyString else String c EmptyString
      | kept => String c kept
      end
  end.

(** [s.strip()] *)
Definition strip (s : string) : string := rstrip (lstrip s).

Definition FALLBACK_DIV : string := "/* ===== */".

(** The functions below pop lines off the front of the list they are
    given; each returns what the source returns together with the lines
    left in the list. *)

Module Authority.

(** [while lines and lines[0].startswith(' '): section_lines.append(lines.pop(0))] *)
Fixpoint pop_indented (lines : list string) : list string * list string :=
  match lines with
  | [] => ([], [])
  | line :: rest =>
      if String.prefix " " line then
        let (section_lines, left) := pop_indented rest in
        (line :: section_lines, left)
      else ([], lines)
  end.

(** [Authority._pop_section(lines)] *)
Definition _pop_section (lines : list string) : list string * list string :=
  match lines with
  | [] => ([], [])
  | line :: rest =>
      let (section_lines, left) := pop_indented rest in
      (line :: section_lines, left)
  end.

End Authority.

Module Fallback.

(** [Fallback._pop_header(lines)] *)
Fixpoint _pop_header (lines : list string) : list string * list string :=
  match lines with
  | [] => ([], [])
  | line :: rest =>
      if String.eqb line "//" then ([], lines)
      else
        let (header_lines, left) := _pop_header rest in
        (line :: header_lines, left)
  end.

(** The loop of [_pop_section], entered with the line just popped and
    the lines still in the list: it stops when the list is empty or the
    line is the divider, and otherwise keeps the line unless it is a
    lone comma, then pops the next one. *)
Fixpoint pop_until_div (line : string) (lines : list string)
    : list string * list string :=
  match lines with
  | [] => ([], [])
  | next :: rest =>
      if String.eqb line FALLBACK_DIV then ([], lines)
      else
        let (section_lines, left) := pop_until_div next rest in
        (if String.eqb (strip line) "," then section_lines
         else line :: section_lines, left)
  end.

(** [Fallback._pop_section(lines)] *)
Definition _pop_section (lines : list string) : list string * list string :=
  match lines with
  | [] => ([], [])
  | line :: rest => pop_until_div line rest
  end.

End Fallback.

Section DirectoryEntries.

(** [_match_with(section, regexes, required)], whose result the
    generator yields, and the function that pops a section. *)
Variable A : Type.
Variable match_with : list string -> A.
Variable pop_section_func : list string -> list string * list string.

(** [_directory_entries(lines, pop_section_func, regexes, required)]:
    the values the generator yields, in order, within [fuel] rounds of
    its loop.  The loop ends at the first empty section. *)
Fixpoint _directory_entries (fuel : nat) (lines : list string) : list A :=
  match fuel with
  | O => []
  | S fuel' =>
      let (next_section, left) := pop_section_func lines in
      match next_section with
      | [] => []
      | _ :: _ => match_with next_section :: _directory_entries fuel' left
      end
  end.

End DirectoryEntries.

(** Whether [_pop_section] of [Fallback] keeps a line it walks over. *)
Definition kept_line (line : string) : bool :=
  negb (String.eqb (strip line) ",").

(** * Properties *)

(** ** The field codec *)

Lemma Z_of_byte_of_Z (z : Z) : Z_of_byte (byte_of_Z z) = z mod 256.
Proof.
  unfold Z_of_byte, byte_of_Z.
  assert (Hr : 0 <= z mod 256 < 256) by (apply Z.mod_pos_bound; lia).
  destruct (Byte.of_N (Z.to_N (z mod 256))) as [b|] eqn:E.
  - apply Byte.to_of_N in E. rewrite E. apply Z2N.id; lia.
  - apply Byte.of_N_None_iff in E. lia.
Qed.

Lemma be_bytes_length (n : nat) (v : Z) : List.length (be_bytes n v) = n.
Proof.
  induction n as [|k IH]; simpl; [reflexivity | now rewrite IH].
Qed.

Lemma be_fold_bytes (n : nat) (v acc : Z) :
  fold_left (fun a b => a * 256 + Z_of_byte b) (be_bytes n v) acc
  = acc * 2 ^ (8 * Z.of_nat n) + v mod 2 ^ (8 * Z.of_nat n).
Proof.
  revert acc. induction n as [|k IH]; intros acc.
  - simpl. rewrite Z.mod_1_r. lia.
  - cbn [be_bytes fold_left]. rewrite IH, Z_of_byte_of_Z.
    rewrite Z.shiftr_div_pow2 by lia.
    replace (8 * Z.of_nat (S k)) with (8 * Z.of_nat k + 8) by lia.
    rewrite Z.pow_add_r by lia.
    change (2 ^ 8) with 256.
    assert (Hp : 0 < 2 ^ (8 * Z.of_nat k)) by (apply Z.pow_pos_nonneg; lia).
    rewrite (Z.rem_mul_r v (2 ^ (8 * Z.of_nat k)) 256) by lia.
    lia.
Qed.

Lemma be_value_be_bytes (n : nat) (v : Z) :
  0 <= v < 2 ^ (8 * Z.of_nat n) -> be_value (be_bytes n v) = v.
Proof.
  intros Hv. unfold be_value. rewrite be_fold_bytes.
  rewrite Z.mod_small by exact Hv. lia.
Qed.

Lemma fits_range (f : Pack.format) (v : Z) :
  fits f v = true <-> 0 <= v < 2 ^ (8 * Z.of_nat (Pack.size f)).
Proof.
  unfold fits. rewrite andb_true_iff, Z.leb_le, Z.ltb_lt. tauto.
Qed.

Lemma struct_pack_fits (f : Pack.format) (v : Z) :
  fits f v = true -> struct_pack f v = Ok (be_bytes (Pack.size f) v).
Proof.
  intros H. unfold struct_pack. now rewrite H.
Qed.

Lemma struct_pack_roundtrip (f : Pack.format) (v : Z) (bs : list byte) :
  struct_pack f v = Ok bs ->
  List.length bs = Pack.size f /\ be_value bs = v.
Proof.
  unfold struct_pack. destruct (fits f v) eqn:E; [|discriminate].
  intros [= <-]. split.
  - apply be_bytes_length.
  - apply be_value_be_bytes. now apply fits_range.
Qed.

(** Every command value fits the one-byte command field. *)
Lemma command_value_fits (cls : cell_class) :
  In cls commands -> fits Pack.CHAR (VALUE cls) = true.
Proof.
  intros H. repeat (destruct H as [<- | H]; [reflexivity|]). destruct H.
Qed.

Lemma fixed_size_is_command (cls : cell_class) :
  IS_FIXED_SIZE cls = true -> In cls commands.
Proof.
  destruct cls; simpl; intros H; try discriminate; tauto.
Qed.

(** ** The generic framer *)

Lemma header_length (cls : cell_class) (link_version circ_id : Z) :
  List.length (header cls link_version circ_id) = S (id_width link_version).
Proof.
  unfold header. rewrite length_app, !be_bytes_length. lia.
Qed.

(** What [Cell._pack] does for a fixed-size class once the circuit id
    fits its field. *)
Lemma pack_fixed_unfold (cls : cell_class) (link_version : Z)
    (payload : list byte) (circ_id : Z) :
  IS_FIXED_SIZE cls = true ->
  fits (id_format link_version) circ_id = true ->
  Cell._pack cls link_version payload circ_id =
    let cell := header cls link_version circ_id ++ payload in
    if len cell >? Z.of_nat (fixed_cell_len link_version) then
      Raise (Cell.too_large cls (len cell) (Z.of_nat (fixed_cell_len link_version)))
    else
      Ok (cell ++ repeat ZERO (fixed_cell_len link_version - List.length cell)).
Proof.
  intros Hfixed Hid.
  pose proof (command_value_fits cls (fixed_size_is_command cls Hfixed)) as Hcmd.
  unfold Cell._pack, header, id_width, fixed_cell_len, id_format in *.
  rewrite Hfixed.
  destruct (link_version >? 3);
    rewrite (struct_pack_fits _ _ Hid), (struct_pack_fits _ _ Hcmd);
    cbn [bind Pack.size app]; cbv zeta;
    rewrite <- !app_assoc; cbn [app];
    change (Z.of_nat 514) with 514; change (Z.of_nat 512) with 512;
    match goal with
    | |- (if ?c then _ else _) = _ => destruct c; [reflexivity|]
    end;
    unfold len; rewrite Z2Nat.inj_sub, Nat2Z.id by lia; reflexivity.
Qed.

(** What [Cell._pack] does for a variable-size command once the circuit
    id and the payload length fit their fields. *)
Lemma pack_variable_unfold (cls : cell_class) (link_version : Z)
    (payload : list byte) (circ_id : Z) :
  In cls commands ->
  IS_FIXED_SIZE cls = false ->
  fits (id_format link_version) circ_id = true ->
  fits Pack.SHORT (len payload) = true ->
  Cell._pack cls link_version payload circ_id =
    Ok (header cls link_version circ_id ++ be_bytes 2 (len payload) ++ payload).
Proof.
  intros Hcmd Hvar Hid Hlen.
  apply command_value_fits in Hcmd.
  unfold Cell._pack, header, id_width, id_format in *.
  rewrite Hvar.
  destruct (link_version >? 3);
    rewrite (struct_pack_fits _ _ Hid), (struct_pack_fits _ _ Hcmd),
      (struct_pack_fits _ _ Hlen);
    cbn [bind Pack.size]; cbv zeta; now rewrite <- !app_assoc.
Qed.

(** C5 -- fixed-length invariant and padding content.  For every
    fixed-size class, every link version, every circuit id that fits the
    id field and every payload within capacity, [Cell._pack] returns the
    header, the payload and then zero bytes only, and the result is
    exactly 512 bytes long when [link_version <= 3] and 514 bytes long
    when [link_version > 3]. *)
Theorem fixed_cell_is_padded_to_length (cls : cell_class) (link_version : Z)
    (payload : list byte) (circ_id : Z) :
  IS_FIXED_SIZE cls = true ->
  fits (id_format link_version) circ_id = true ->
  (S (id_width link_version) + List.length payload
   <= fixed_cell_len link_version)%nat ->
  exists out,
    Cell._pack cls link_version payload circ_id = Ok out
    /\ len out = (if link_version >? 3 then 514 else 512)
    /\ firstn (S (id_width link_version) + List.length payload) out
       = header cls link_version circ_id ++ payload
    /\ forall i,
         (S (id_width link_version) + List.length payload <= i
          < List.length out)%nat ->
         nth_error out i = Some x00.
Proof.
  intros Hfixed Hid Hcap.
  pose proof (header_length cls link_version circ_id) as Hh.
  set (cell := header cls link_version circ_id ++ payload).
  assert (Hcell : List.length cell = (S (id_width link_version)
                                      + List.length payload)%nat)
    by (unfold cell; rewrite length_app; lia).
  exists (cell ++ repeat ZERO (fixed_cell_len link_version - List.length cell)).
  split; [|split; [|split]].
  - rewrite (pack_fixed_unfold cls link_version payload circ_id Hfixed Hid).
    cbv zeta. fold cell.
    destruct (Z.gtb_spec (len cell) (Z.of_nat (fixed_cell_len link_version)))
      as [Hgt|_]; [unfold len in Hgt; lia | reflexivity].
  - unfold len. rewrite length_app, repeat_length.
    unfold fixed_cell_len in *. destruct (link_version >? 3); lia.
  - rewrite <- Hcell, firstn_app, Nat.sub_diag, firstn_all. cbn [firstn].
    apply app_nil_r.
  - intros i [Hlo Hhi]. rewrite length_app, repeat_length in Hhi.
    rewrite nth_error_app2 by lia.
    apply nth_error_repeat. lia.
Qed.

Lemma fixed_cell_is_padded_to_length_witness :
  IS_FIXED_SIZE NetinfoCell = true
  /\ exists out,
       Cell._pack NetinfoCell 4 [x01; x02] 0 = Ok out
       /\ len out = 514
       /\ firstn 7 out = header NetinfoCell 4 0 ++ [x01; x02]
       /\ forall i, (7 <= i < List.length out)%nat -> nth_error out i = Some x00.
Proof.
  split; [reflexivity|].
  apply (fixed_cell_is_padded_to_length NetinfoCell 4 [x01; x02] 0);
    [reflexivity | reflexivity | vm_compute; lia].
Defined.

(** C6 -- oversize rejection.  For every fixed-size class, when the
    header and the payload together are longer than the fixed cell length
    of the link version, [Cell._pack] raises the ValueError whose message
    names the command, the actual length and the fixed length; nothing is
    returned. *)
Theorem oversized_fixed_cell_is_rejected (cls : cell_class) (link_version : Z)
    (payload : list byte) (circ_id : Z) :
  IS_FIXED_SIZE cls = true ->
  fits (id_format link_version) circ_id = true ->
  (fixed_cell_len link_version
   < S (id_width link_version) + List.length payload)%nat ->
  Cell._pack cls link_version payload circ_id
  = Raise (ValueError
             ("Payload of " ++ NAME cls ++ " is too large ("
              ++ str_of_int (Z.of_nat (S (id_width link_version)
                                       + List.length payload))
              ++ " bytes), must be less than "
              ++ str_of_int (if link_version >? 3 then 514 else 512))%string).
Proof.
  intros Hfixed Hid Hbig.
  pose proof (header_length cls link_version circ_id) as Hh.
  rewrite (pack_fixed_unfold cls link_version payload circ_id Hfixed Hid).
  cbv zeta.
  assert (Hcell : len (header cls link_version circ_id ++ payload)
                  = Z.of_nat (S (id_width link_version) + List.length payload))
    by (unfold len; rewrite length_app, Hh; reflexivity).
  rewrite Hcell.
  destruct (Z.gtb_spec
              (Z.of_nat (S (id_width link_version) + List.length payload))
              (Z.of_nat (fixed_cell_len link_version))) as [_|Hle]; [|lia].
  unfold Cell.too_large, fixed_cell_len.
  destruct (link_version >? 3); reflexivity.
Qed.

(** The example of the specification: a DESTROY cell at link version 3
    with a 510-byte payload. *)
Lemma oversized_fixed_cell_is_rejected_witness :
  List.length (repeat x2a 510) = 510%nat
  /\ Cell._pack DestroyCell 3 (repeat x2a 510) 7
     = Raise (ValueError
         "Payload of DESTROY is too large (513 bytes), must be less than 512").
Proof.
  split; [reflexivity|].
  apply (oversized_fixed_cell_is_rejected DestroyCell 3 (repeat x2a 510) 7);
    [reflexivity | reflexivity | vm_compute; lia].
Defined.

(** ** The circuit-id rule *)

(** [Cell._pack] bound to [Cell] itself never returns: the command value
    of the base class is [-1], which no unsigned byte holds. *)
Lemma base_pack_raises (link_version : Z) (payload : list byte) :
  Cell._pack Cell link_version payload
    (if link_version >? 3 then 2147483648 else 1) = Raise StructError.
Proof.
  unfold Cell._pack. destruct (link_version >? 3); reflexivity.
Qed.

(** C1 -- explicit circuit id.  Whatever the class, the link version and
    the payload, [CircuitCell._pack] called with an integer circuit id
    (zero included) takes the [else] branch and raises the ValueError
    "... cells require a circ_id": the id is never framed. *)
Theorem explicit_circ_id_is_rejected (cls : cell_class) (link_version : Z)
    (payload : list byte) (circ_id : Z) :
  CircuitCell._pack cls link_version payload (Some circ_id)
  = Raise (ValueError (NAME cls ++ " cells require a circ_id")%string)
  /\ cls_pack CreateCell 3 [] (Some 5)
     = Raise (ValueError "CREATE cells require a circ_id").
Proof.
  split; reflexivity.
Qed.

(** C2 -- missing circuit id.  With no circuit id, RELAY, DESTROY and
    RELAY_EARLY raise the ValueError "... cells require a circ_id" and
    return nothing; CREATED and CREATED_FAST do not: their names start
    with CREATE, so they follow the auto-assignment branch and end in
    [struct.error]. *)
Theorem missing_circ_id_outcomes (link_version : Z) (payload : list byte) :
  Forall (fun cls =>
            CircuitCell._pack cls link_version payload None
            = Raise (ValueError (NAME cls ++ " cells require a circ_id")%string))
         [RelayCell; DestroyCell; RelayEarlyCell]
  /\ Forall (fun cls =>
               String.prefix "CREATE" (NAME cls) = true
               /\ CircuitCell._pack cls link_version payload None
                  = Raise StructError)
            [CreatedCell; CreatedFastCell].
Proof.
  split; repeat constructor;
    unfold CircuitCell._pack; cbn [is_None andb NAME String.prefix];
    try reflexivity; apply base_pack_raises.
Qed.

(** C4 -- auto-assignment.  For CREATE, CREATE_FAST and CREATE2 with no
    circuit id, [CircuitCell._pack] chooses 0x01 ([link_version <= 3]) or
    0x80000000 ([link_version > 3]) and passes it to [Cell._pack] bound
    to the base class, which raises [struct.error]: no cell carrying the
    chosen id is returned. *)
Theorem auto_assigned_id_is_not_framed (link_version : Z) (payload : list byte) :
  Forall (fun cls =>
            CircuitCell._pack cls link_version payload None
            = Cell._pack Cell link_version payload
                (if link_version >? 3 then 2147483648 else 1)
            /\ CircuitCell._pack cls link_version payload None
               = Raise StructError)
         [CreateCell; CreateFastCell; Create2Cell].
Proof.
  repeat constructor;
    unfold CircuitCell._pack; cbn [is_None andb NAME String.prefix];
    try reflexivity; apply base_pack_raises.
Qed.

(** ** The registry *)

(** C7 -- the eighteen commands.  The command classes carry exactly the
    listed names and wire values; they are all the classes of the module
    except the two abstract bases; names and values are pairwise
    distinct; the fixed-size ones and the circuit-scoped ones are exactly
    the listed sets, CREATED2 being fixed-size but not circuit-scoped. *)
Theorem registry_table :
  map descriptor commands
  = [ ("PADDING", 0, true, false); ("CREATE", 1, true, true);
      ("CREATED", 2, true, true); ("RELAY", 3, true, true);
      ("DESTROY", 4, true, true); ("CREATE_FAST", 5, true, true);
      ("CREATED_FAST", 6, true, true); ("VERSIONS", 7, false, false);
      ("NETINFO", 8, true, false); ("RELAY_EARLY", 9, true, true);
      ("CREATE2", 10, true, true); ("CREATED2", 11, true, false);
      ("PADDING_NEGOTIATE", 12, true, false); ("VPADDING", 128, false, false);
      ("CERTS", 129, false, false); ("AUTH_CHALLENGE", 130, false, false);
      ("AUTHENTICATE", 131, false, false); ("AUTHORIZE", 132, false, false) ]
  /\ List.length commands = 18%nat
  /\ (forall cls, In cls commands <-> cls <> Cell /\ cls <> CircuitCell)
  /\ NoDup (map NAME commands)
  /\ NoDup (map VALUE commands)
  /\ map NAME (filter IS_FIXED_SIZE commands)
     = [ "PADDING"; "CREATE"; "CREATED"; "RELAY"; "DESTROY"; "CREATE_FAST";
         "CREATED_FAST"; "NETINFO"; "RELAY_EARLY"; "CREATE2"; "CREATED2";
         "PADDING_NEGOTIATE" ]
  /\ map NAME (filter for_circuit commands)
     = [ "CREATE"; "CREATED"; "RELAY"; "DESTROY"; "CREATE_FAST";
         "CREATED_FAST"; "RELAY_EARLY"; "CREATE2" ]
  /\ for_circuit Created2Cell = false.
Proof.
  split; [reflexivity|]. split; [reflexivity|].
  split.
  { intros cls. split.
    - intros H. repeat (destruct H as [<- | H]; [split; discriminate|]).
      destruct H.
    - intros [H1 H2]. destruct cls; simpl; tauto. }
  split.
  { repeat constructor; simpl; intuition discriminate. }
  split.
  { repeat constructor; simpl; intuition discriminate. }
  repeat split.
Qed.

(** The member list is in the order [getmembers] produces. *)
Lemma module_members_sorted : sorted_names (map fst module_members) = true.
Proof. reflexivity. Qed.

Lemma find_all_false {A : Type} (f : A -> bool) (l : list A) :
  Forall (fun x => f x = false) l -> find f l = None.
Proof.
  induction 1 as [|x l Hx _ IH]; simpl; [reflexivity | now rewrite Hx].
Qed.

Lemma find_agree {A : Type} (f g : A -> bool) (l : list A) :
  (forall x, f x = g x) -> find f l = find g l.
Proof.
  intros H. induction l as [|x l IH]; simpl; [reflexivity|].
  now rewrite H, IH.
Qed.

(** A name different from the sentinel can only match a cell class. *)
Lemma by_name_scans_classes (UNDEFINED name : string) :
  name <> UNDEFINED ->
  find (fun nm => Cell.name_matches UNDEFINED name (snd nm)) module_members
  = find (fun nm => class_name_matches name (snd nm)) module_members.
Proof.
  intros Hne. apply find_agree. intros [id [cls|]]; simpl; [reflexivity|].
  unfold Cell.name_matches. simpl. now apply String.eqb_neq.
Qed.

Lemma by_name_of_command (UNDEFINED : string) (cls : cell_class) :
  In cls commands -> NAME cls <> UNDEFINED ->
  Cell.by_name UNDEFINED (NAME cls) = Ok (ClassMember cls).
Proof.
  intros Hin Hne. unfold Cell.by_name.
  rewrite (by_name_scans_classes _ _ Hne).
  repeat (destruct Hin as [<- | Hin]; [reflexivity|]). destruct Hin.
Qed.

Lemma by_name_unregistered (UNDEFINED name : string) :
  name <> UNDEFINED -> name <> "UNKNOWN" -> ~ In name (map NAME commands) ->
  Cell.by_name UNDEFINED name
  = Raise (ValueError ("'" ++ name ++ "' isn't a valid cell type")%string).
Proof.
  intros Hne Hunk Hnotin. unfold Cell.by_name.
  rewrite (by_name_scans_classes _ _ Hne), find_all_false; [reflexivity|].
  repeat constructor; cbn [snd class_name_matches NAME];
    apply String.eqb_neq; intros ->;
    solve [ apply Hunk; reflexivity | apply Hnotin; simpl; tauto ].
Qed.

Lemma by_value_of_command (cls : cell_class) :
  In cls commands -> Cell.by_value (VALUE cls) = Ok (ClassMember cls).
Proof.
  intros Hin.
  repeat (destruct Hin as [<- | Hin]; [reflexivity|]). destruct Hin.
Qed.

Lemma by_value_unregistered (value : Z) :
  value <> -1 -> ~ In value (map VALUE commands) ->
  Cell.by_value value
  = Raise (ValueError ("'" ++ str_of_int value
                       ++ "' isn't a valid cell value")%string).
Proof.
  intros Hbase Hnotin. unfold Cell.by_value.
  rewrite find_all_false; [reflexivity|].
  repeat constructor; cbn [snd Cell.value_matches getattr_VALUE VALUE];
    try reflexivity;
    apply Z.eqb_neq; intros ->;
    solve [ apply Hbase; reflexivity | apply Hnotin; simpl; tauto ].
Qed.

(** C8 -- lookups, as the code has them.  For a name other than the
    base-class default "UNKNOWN" and other than the [getattr] sentinel,
    [by_name] returns the command class of that name when there is one
    and otherwise raises the ValueError quoting the name; for a value
    other than the base-class default -1, [by_value] returns the command
    class of that value when there is one and otherwise raises the
    ValueError quoting the value. *)
Theorem lookups_outside_base_defaults (UNDEFINED name : string) (value : Z) :
  name <> UNDEFINED -> name <> "UNKNOWN" -> value <> -1 ->
  (forall cls, In cls commands -> NAME cls = name ->
     Cell.by_name UNDEFINED name = Ok (ClassMember cls))
  /\ (~ In name (map NAME commands) ->
      Cell.by_name UNDEFINED name
      = Raise (ValueError ("'" ++ name ++ "' isn't a valid cell type")%string))
  /\ (forall cls, In cls commands -> VALUE cls = value ->
        Cell.by_value value = Ok (ClassMember cls))
  /\ (~ In value (map VALUE commands) ->
      Cell.by_value value
      = Raise (ValueError ("'" ++ str_of_int value
                           ++ "' isn't a valid cell value")%string)).
Proof.
  intros Hne Hunk Hbase. repeat split.
  - intros cls Hin <-. now apply by_name_of_command.
  - intros Hnotin. now apply by_name_unregistered.
  - intros cls Hin <-. now apply by_value_of_command.
  - intros Hnotin. now apply by_value_unregistered.
Qed.

Lemma lookups_outside_base_defaults_witness :
  Cell.by_name "<Undefined_ >" "RELAY" = Ok (ClassMember RelayCell)
  /\ Cell.by_name "<Undefined_ >" "relay"
     = Raise (ValueError "'relay' isn't a valid cell type")
  /\ Cell.by_value 200 = Raise (ValueError "'200' isn't a valid cell value").
Proof.
  destruct (lookups_outside_base_defaults "<Undefined_ >" "RELAY" 200)
    as (Hname & _ & _ & Hvalue); [discriminate | discriminate | lia |].
  destruct (lookups_outside_base_defaults "<Undefined_ >" "relay" 3)
    as (_ & Hmiss & _ & _); [discriminate | discriminate | lia |].
  split; [apply (Hname RelayCell); [simpl; tauto | reflexivity] |].
  split; [apply Hmiss; simpl; intuition discriminate |].
  apply Hvalue. simpl. intuition lia.
Defined.

(** The claim as written fails at the base-class defaults: neither the
    name "UNKNOWN" nor the value -1 belongs to a command, and both
    lookups succeed. *)
Lemma base_defaults_are_found :
  ~ In "UNKNOWN" (map NAME commands)
  /\ Cell.by_name "<Undefined_ >" "UNKNOWN" = Ok (ClassMember Cell)
  /\ ~ In (-1) (map VALUE commands)
  /\ Cell.by_value (-1) = Ok (ClassMember Cell).
Proof.
  split; [simpl; intuition discriminate|].
  split; [reflexivity|].
  split; [simpl; intuition discriminate | reflexivity].
Qed.

(** C10 -- the base class answers for its defaults.  Whatever the
    sentinel, looking up the name "UNKNOWN" or the value -1 returns the
    abstract class [Cell], whose descriptor is name "UNKNOWN", value -1,
    variable size, not circuit-scoped; neither key belongs to one of the
    eighteen commands. *)
Theorem unknown_resolves_to_base_class (UNDEFINED : string) :
  Cell.by_name UNDEFINED "UNKNOWN" = Ok (ClassMember Cell)
  /\ Cell.by_value (-1) = Ok (ClassMember Cell)
  /\ descriptor Cell = ("UNKNOWN", -1, false, false)
  /\ ~ In Cell commands
  /\ ~ In "UNKNOWN" (map NAME commands)
  /\ ~ In (-1) (map VALUE commands).
Proof.
  split; [reflexivity|]. split; [reflexivity|]. split; [reflexivity|].
  repeat split; simpl; intuition discriminate.
Qed.

(** ** [VersionsCell] *)

Lemma join_shorts_concat (versions : list Z) :
  Forall (fun v => fits Pack.SHORT v = true) versions ->
  VersionsCell.join_shorts versions = Ok (flat_map (be_bytes 2) versions).
Proof.
  induction 1 as [|v rest Hv _ IH]; [reflexivity|].
  cbn [VersionsCell.join_shorts flat_map].
  rewrite (struct_pack_fits _ _ Hv), IH. reflexivity.
Qed.

Lemma flat_map_shorts_length (versions : list Z) :
  len (flat_map (be_bytes 2) versions) = 2 * len versions.
Proof.
  unfold len. induction versions as [|v rest IH]; [reflexivity|].
  cbn [flat_map]. rewrite length_app, be_bytes_length.
  cbn [List.length]. lia.
Qed.

(** C9 -- the VERSIONS cell.  When every version fits a two-byte field
    (and so does the payload length), [VersionsCell.pack] returns the
    frame of link version 3 -- two-byte zero circuit id, command 7,
    two-byte payload length -- followed by each version as two
    big-endian bytes in the order given; the function has no link
    version argument and always calls the framer with 3. *)
Theorem versions_cell_layout (versions : list Z) :
  Forall (fun v => fits Pack.SHORT v = true) versions ->
  fits Pack.SHORT (2 * len versions) = true ->
  VersionsCell.pack versions
  = Cell._pack VersionsCell 3 (flat_map (be_bytes 2) versions) 0
  /\ VersionsCell.pack versions
     = Ok ([x00; x00; x07] ++ be_bytes 2 (2 * len versions)
           ++ flat_map (be_bytes 2) versions).
Proof.
  intros Hfit Hlen. unfold VersionsCell.pack.
  rewrite (join_shorts_concat versions Hfit). cbn [bind].
  split; [reflexivity|].
  rewrite pack_variable_unfold;
    [ | simpl; tauto | reflexivity | reflexivity
      | now rewrite flat_map_shorts_length ].
  now rewrite flat_map_shorts_length.
Qed.

(** The example of the specification: versions 5, 3, 4. *)
Lemma versions_cell_layout_witness :
  VersionsCell.pack [5; 3; 4]
  = Ok [x00; x00; x07; x00; x06; x00; x05; x00; x03; x00; x04].
Proof.
  apply (versions_cell_layout [5; 3; 4]);
    [repeat constructor | reflexivity].
Defined.

(** ** Decoding what the framer produced *)

Lemma lookup_command_byte (cls : cell_class) :
  In cls commands ->
  lookup_by_value (Z_of_byte (byte_of_Z (VALUE cls))) = Some cls.
Proof.
  intros Hin.
  repeat (destruct Hin as [<- | Hin]; [reflexivity|]). destruct Hin.
Qed.

(** The decoder on a buffer that starts with an id field of the right
    width and a command byte. *)
Lemma unpack_header (cls : cell_class) (link_version circ_id : Z)
    (rest : list byte) :
  In cls commands ->
  fits (id_format link_version) circ_id = true ->
  unpack link_version (header cls link_version circ_id ++ rest)
  = let id := if for_circuit cls then Some circ_id else None in
    if IS_FIXED_SIZE cls then
      let n := (fixed_cell_len link_version - S (id_width link_version))%nat in
      if (List.length rest <? n)%nat then Failed TruncatedCellError
      else Decoded (mk_cell cls id (firstn n rest)) (fixed_cell_len link_version)
    else
      if (List.length rest <? 2)%nat then Failed TruncatedCellError
      else
        let declared_length := Z.to_nat (be_value (firstn 2 rest)) in
        let body := skipn 2 rest in
        if (List.length body <? declared_length)%nat
        then Failed TruncatedCellError
        else Decoded (mk_cell cls id (firstn declared_length body))
               (id_width link_version + 3 + declared_length).
Proof.
  intros Hin Hid.
  pose proof (be_bytes_length (id_width link_version) circ_id) as Hw.
  unfold unpack, header. rewrite <- app_assoc.
  rewrite nth_error_app2 by lia. rewrite Hw, Nat.sub_diag.
  cbn [be_bytes app nth_error].
  change (Z.shiftr (VALUE cls) (8 * Z.of_nat 0)) with (VALUE cls).
  rewrite (lookup_command_byte cls Hin).
  rewrite firstn_app, Hw, Nat.sub_diag, firstn_all2 by lia.
  cbn [firstn]. rewrite app_nil_r.
  rewrite be_value_be_bytes by (now apply fits_range).
  replace (skipn (S (id_width link_version))
             (be_bytes (id_width link_version) circ_id
              ++ byte_of_Z (VALUE cls) :: rest)) with rest; [reflexivity|].
  rewrite skipn_app, Hw, skipn_all2 by lia.
  replace (S (id_width link_version) - id_width link_version)%nat with 1%nat
    by lia.
  reflexivity.
Qed.

(** C3 -- round trip, as the framer and the decoder of the specification
    have it.  For every command, every link version and every
    well-formed cell whose circuit id fits the id field and whose payload
    is within capacity, [Cell._pack] returns a buffer that decodes to the
    same command and circuit id and is consumed entirely; the decoded
    payload is the original one followed by the zero padding of the
    frame, which is empty for variable-size commands. *)
Theorem unpack_pack_keeps_padding (link_version : Z) (c : cell) :
  In (command c) commands ->
  well_formed c = true ->
  fits (id_format link_version)
       (match circuit_id c with Some i => i | None => 0 end) = true ->
  within_capacity link_version c = true ->
  exists out,
    pack_cell link_version c = Ok out
    /\ unpack link_version out
       = Decoded (mk_cell (command c) (circuit_id c)
                    (payload c ++ padding link_version (command c) (payload c)))
           (List.length out).
Proof.
  destruct c as [cls id p]. cbn [command circuit_id payload].
  unfold well_formed, within_capacity, pack_cell, padding.
  cbn [command circuit_id payload].
  intros Hin Hwf Hid Hcap.
  set (i := match id with Some i => i | None => 0 end) in *.
  assert (Hsame : (if for_circuit cls then Some i else None) = id).
  { apply Bool.eqb_prop in Hwf. subst i.
    destruct id, (for_circuit cls); simpl in Hwf;
      try discriminate; reflexivity. }
  pose proof (header_length cls link_version i) as Hh.
  destruct (IS_FIXED_SIZE cls) eqn:Hfixed.
  - apply Nat.leb_le in Hcap.
    set (k := (fixed_cell_len link_version - S (id_width link_version)
               - List.length p)%nat).
    exists (header cls link_version i ++ p ++ repeat ZERO k).
    split.
    + rewrite (pack_fixed_unfold cls link_version p i Hfixed Hid). cbv zeta.
      destruct (Z.gtb_spec (len (header cls link_version i ++ p))
                  (Z.of_nat (fixed_cell_len link_version))) as [Hgt|_].
      * unfold len in Hgt. rewrite length_app in Hgt. lia.
      * rewrite <- app_assoc. do 4 f_equal.
        rewrite length_app. subst k. lia.
    + rewrite (unpack_header cls link_version i _ Hin Hid). cbv zeta.
      rewrite Hfixed, Hsame.
      assert (Hlen : List.length (p ++ repeat ZERO k)
                     = (fixed_cell_len link_version
                        - S (id_width link_version))%nat)
        by (rewrite length_app, repeat_length; subst k; lia).
      rewrite Hlen, Nat.ltb_irrefl, firstn_all2 by lia.
      do 2 f_equal. rewrite length_app, Hlen. lia.
  - assert (Hlp : 0 <= len p < 2 ^ 16) by (now apply fits_range in Hcap).
    exists (header cls link_version i ++ be_bytes 2 (len p) ++ p).
    split.
    + now apply pack_variable_unfold.
    + rewrite (unpack_header cls link_version i _ Hin Hid). cbv zeta.
      rewrite Hfixed, Hsame.
      rewrite length_app, be_bytes_length.
      replace (2 + List.length p <? 2)%nat with false
        by (symmetry; apply Nat.ltb_ge; lia).
      rewrite firstn_app, be_bytes_length, Nat.sub_diag.
      rewrite firstn_all2 by (rewrite be_bytes_length; lia).
      cbn [firstn]. rewrite app_nil_r.
      rewrite be_value_be_bytes by exact Hlp.
      rewrite skipn_app, be_bytes_length, Nat.sub_diag.
      rewrite skipn_all2 by (rewrite be_bytes_length; lia).
      cbn [skipn app]. unfold len. rewrite Nat2Z.id, Nat.ltb_irrefl.
      rewrite firstn_all, app_nil_r.
      do 2 f_equal. rewrite !length_app, Hh, be_bytes_length. lia.
Qed.

Lemma unpack_pack_keeps_padding_witness :
  well_formed (mk_cell CertsCell None [x05; x06]) = true
  /\ exists out,
       pack_cell 4 (mk_cell CertsCell None [x05; x06]) = Ok out
       /\ unpack 4 out
          = Decoded (mk_cell CertsCell None ([x05; x06] ++ [])) (List.length out).
Proof.
  split; [reflexivity|].
  apply (unpack_pack_keeps_padding 4 (mk_cell CertsCell None [x05; x06]));
    [simpl; tauto | reflexivity | reflexivity | reflexivity].
Defined.

(** The round trip as written fails for a fixed-size cell whose payload
    does not fill the frame: a PADDING cell with a one-byte payload at
    link version 3 comes back with the 508 padding bytes appended. *)
Lemma short_fixed_payload_is_not_restored :
  In PaddingCell commands
  /\ well_formed (mk_cell PaddingCell None [x2a]) = true
  /\ within_capacity 3 (mk_cell PaddingCell None [x2a]) = true
  /\ pack_cell 3 (mk_cell PaddingCell None [x2a])
     = Ok ([x00; x00; x00; x2a] ++ repeat x00 508)
  /\ unpack 3 ([x00; x00; x00; x2a] ++ repeat x00 508)
     = Decoded (mk_cell PaddingCell None (x2a :: repeat x00 508)) 512
  /\ mk_cell PaddingCell None (x2a :: repeat x00 508)
     <> mk_cell PaddingCell None [x2a].
Proof.
  split; [simpl; tauto|].
  split; [reflexivity|]. split; [reflexivity|].
  split; [vm_compute; reflexivity|]. split; [vm_compute; reflexivity|].
  intros H. apply (f_equal (fun c => List.length (payload c))) in H.
  cbn [payload List.length] in H. rewrite repeat_length in H. discriminate H.
Qed.

(** Through method resolution a DESTROY cell is rejected before its
    length is looked at, with or without a circuit id. *)
Lemma destroy_dispatch_raises (link_version : Z) (payload : list byte)
    (circ_id : option Z) :
  cls_pack DestroyCell link_version payload circ_id
  = Raise (ValueError "DESTROY cells require a circ_id").
Proof.
  destruct circ_id; reflexivity.
Qed.

(** * Further properties of the framer and of the lookups *)

(** ** When [Cell._pack] returns, and what *)

(** The frame [Cell._pack] builds for a command: the header, then the
    payload and its padding, or the two-byte length and the payload. *)
Lemma pack_frame_of_command (cls : cell_class) (link_version : Z)
    (p : list byte) (circ_id : Z) :
  In cls commands ->
  fits (id_format link_version) circ_id = true ->
  within_capacity link_version (mk_cell cls None p) = true ->
  Cell._pack cls link_version p circ_id
  = Ok (header cls link_version circ_id
        ++ (if IS_FIXED_SIZE cls
            then p ++ padding link_version cls p
            else be_bytes 2 (len p) ++ p)).
Proof.
  intros Hin Hid Hcap.
  pose proof (header_length cls link_version circ_id) as Hh.
  unfold within_capacity, padding in *. cbn [command payload] in Hcap.
  destruct (IS_FIXED_SIZE cls) eqn:Hfixed.
  - apply Nat.leb_le in Hcap.
    rewrite (pack_fixed_unfold cls link_version p circ_id Hfixed Hid).
    cbv zeta.
    destruct (Z.gtb_spec (len (header cls link_version circ_id ++ p))
                (Z.of_nat (fixed_cell_len link_version))) as [Hgt|_].
    + unfold len in Hgt. rewrite length_app in Hgt. lia.
    + rewrite <- app_assoc. do 4 f_equal. rewrite length_app. lia.
  - now apply pack_variable_unfold.
Qed.

(** X1 -- [Cell._pack] returns a buffer exactly when its class is one of
    the eighteen commands, the circuit id fits the id field of the link
    version and the payload is within the capacity of the framing; the
    buffer is then the header followed by the payload and zero padding
    (fixed size) or by the two-byte payload length and the payload
    (variable size, no padding). *)
Theorem pack_returns_iff (cls : cell_class) (link_version : Z)
    (p : list byte) (circ_id : Z) (out : list byte) :
  Cell._pack cls link_version p circ_id = Ok out
  <-> In cls commands
      /\ fits (id_format link_version) circ_id = true
      /\ within_capacity link_version (mk_cell cls None p) = true
      /\ out = header cls link_version circ_id
               ++ (if IS_FIXED_SIZE cls
                   then p ++ padding link_version cls p
                   else be_bytes 2 (len p) ++ p).
Proof.
  split.
  - intros Hok.
    destruct (fits (id_format link_version) circ_id) eqn:Hid.
    2:{ unfold Cell._pack in Hok. fold (id_format link_version) in Hok.
        unfold struct_pack in Hok at 1. rewrite Hid in Hok. discriminate. }
    assert (Hin : In cls commands).
    { destruct cls; try (simpl; tauto);
        unfold Cell._pack in Hok; fold (id_format link_version) in Hok;
        rewrite (struct_pack_fits _ _ Hid) in Hok; discriminate. }
    destruct (within_capacity link_version (mk_cell cls None p)) eqn:Hcap.
    + rewrite (pack_frame_of_command cls link_version p circ_id Hin Hid Hcap)
        in Hok.
      injection Hok as <-. repeat split; assumption.
    + exfalso. unfold within_capacity in Hcap.
      cbn [command payload] in Hcap.
      pose proof (header_length cls link_version circ_id) as Hh.
      destruct (IS_FIXED_SIZE cls) eqn:Hfixed.
      * apply Nat.leb_gt in Hcap.
        rewrite (pack_fixed_unfold cls link_version p circ_id Hfixed Hid)
          in Hok. cbv zeta in Hok.
        destruct (Z.gtb_spec (len (header cls link_version circ_id ++ p))
                    (Z.of_nat (fixed_cell_len link_version))) as [_|Hle];
          [discriminate|].
        unfold len in Hle. rewrite length_app in Hle. lia.
      * unfold Cell._pack in Hok. fold (id_format link_version) in Hok.
        rewrite (struct_pack_fits _ _ Hid),
          (struct_pack_fits _ _ (command_value_fits cls Hin)), Hfixed in Hok.
        cbn [bind] in Hok. unfold struct_pack in Hok. rewrite Hcap in Hok.
        discriminate.
  - intros (Hin & Hid & Hcap & ->). now apply pack_frame_of_command.
Qed.

Lemma command_iff_value_fits (cls : cell_class) :
  In cls commands <-> fits Pack.CHAR (VALUE cls) = true.
Proof.
  split; [apply command_value_fits|].
  destruct cls; simpl; intros H; try discriminate; tauto.
Qed.

(** Every outcome of [Cell._pack], in the order the source reaches it. *)
Lemma pack_outcome (cls : cell_class) (link_version : Z) (p : list byte)
    (circ_id : Z) :
  Cell._pack cls link_version p circ_id
  = if negb (fits (id_format link_version) circ_id) then Raise StructError
    else if negb (fits Pack.CHAR (VALUE cls)) then Raise StructError
    else if IS_FIXED_SIZE cls then
      if (fixed_cell_len link_version
          <? S (id_width link_version) + List.length p)%nat
      then Raise (Cell.too_large cls
                    (Z.of_nat (S (id_width link_version) + List.length p))
                    (Z.of_nat (fixed_cell_len link_version)))
      else Ok (header cls link_version circ_id
               ++ p ++ padding link_version cls p)
    else if fits Pack.SHORT (len p)
      then Ok (header cls link_version circ_id ++ be_bytes 2 (len p) ++ p)
      else Raise StructError.
Proof.
  pose proof (header_length cls link_version circ_id) as Hh.
  destruct (fits (id_format link_version) circ_id) eqn:Hid; cbn [negb].
  2:{ unfold Cell._pack. fold (id_format link_version).
      unfold struct_pack at 1. now rewrite Hid. }
  destruct (fits Pack.CHAR (VALUE cls)) eqn:Hcmd; cbn [negb].
  2:{ unfold Cell._pack. fold (id_format link_version).
      rewrite (struct_pack_fits _ _ Hid). cbn [bind].
      unfold struct_pack at 1. now rewrite Hcmd. }
  pose proof (proj2 (command_iff_value_fits cls) Hcmd) as Hin.
  destruct (IS_FIXED_SIZE cls) eqn:Hfixed.
  - destruct (Nat.ltb_spec (fixed_cell_len link_version)
                (S (id_width link_version) + List.length p)) as [Hbig|Hok].
    + rewrite (pack_fixed_unfold cls link_version p circ_id Hfixed Hid).
      cbv zeta.
      assert (Hcell : len (header cls link_version circ_id ++ p)
                      = Z.of_nat (S (id_width link_version) + List.length p))
        by (unfold len; rewrite length_app, Hh; reflexivity).
      rewrite Hcell.
      destruct (Z.gtb_spec
                  (Z.of_nat (S (id_width link_version) + List.length p))
                  (Z.of_nat (fixed_cell_len link_version))) as [_|Hle];
        [reflexivity | lia].
    + rewrite (pack_frame_of_command cls link_version p circ_id Hin Hid).
      * now rewrite Hfixed.
      * unfold within_capacity. cbn [command payload]. rewrite Hfixed.
        now apply Nat.leb_le.
  - destruct (fits Pack.SHORT (len p)) eqn:Hlen.
    + now apply pack_variable_unfold.
    + unfold Cell._pack. fold (id_format link_version).
      rewrite (struct_pack_fits _ _ Hid), (struct_pack_fits _ _ Hcmd), Hfixed.
      cbn [bind]. unfold struct_pack. now rewrite Hlen.
Qed.

(** X2 -- the failures of [Cell._pack].  It raises [struct.error]
    exactly when the circuit id does not fit the id field, or the class
    is an abstract base, or the command is variable-size and the payload
    length does not fit two bytes; it raises the "too large" ValueError
    exactly when the command is fixed-size, the id fits and header plus
    payload exceed the fixed cell length.  No other exception occurs. *)
Theorem pack_raises_iff (cls : cell_class) (link_version : Z) (p : list byte)
    (circ_id : Z) (e : exn) :
  Cell._pack cls link_version p circ_id = Raise e
  <-> (e = StructError
       /\ (fits (id_format link_version) circ_id = false
           \/ ~ In cls commands
           \/ (IS_FIXED_SIZE cls = false /\ fits Pack.SHORT (len p) = false)))
      \/ (e = Cell.too_large cls
                (Z.of_nat (S (id_width link_version) + List.length p))
                (Z.of_nat (fixed_cell_len link_version))
          /\ IS_FIXED_SIZE cls = true
          /\ fits (id_format link_version) circ_id = true
          /\ (fixed_cell_len link_version
              < S (id_width link_version) + List.length p)%nat).
Proof.
  rewrite pack_outcome, command_iff_value_fits.
  destruct (fits (id_format link_version) circ_id) eqn:Hid; cbn [negb].
  2:{ split.
      - intros [= <-]. left. split; [reflexivity | now left].
      - intros [[-> _] | (_ & _ & Habs & _)]; [reflexivity | discriminate]. }
  destruct (fits Pack.CHAR (VALUE cls)) eqn:Hcmd; cbn [negb].
  2:{ split.
      - intros [= <-]. left. split; [reflexivity|]. right. left. congruence.
      - intros [[-> _] | (_ & Hfixed & _)]; [reflexivity|].
        apply fixed_size_is_command, command_value_fits in Hfixed. congruence. }
  destruct (IS_FIXED_SIZE cls) eqn:Hfixed.
  - destruct (Nat.ltb_spec (fixed_cell_len link_version)
                (S (id_width link_version) + List.length p)) as [Hbig|Hok].
    + split.
      * intros [= <-]. right. repeat split; assumption.
      * intros [[-> [Habs | [Habs | [Habs _]]]] | [-> _]];
          try discriminate; try reflexivity; try (now elim Habs).
    + split; [discriminate|].
      intros [[_ [Habs | [Habs | [Habs _]]]] | (_ & _ & _ & Habs)];
        try discriminate; try lia; try (now elim Habs).
  - destruct (fits Pack.SHORT (len p)) eqn:Hlen.
    + split; [discriminate|].
      intros [[_ [Habs | [Habs | [_ Habs]]]] | (_ & Habs & _)];
        try discriminate; try (now elim Habs).
    + split.
      * intros [= <-]. left. split; [reflexivity|]. right. right. now split.
      * intros [[-> _] | (_ & Habs & _)]; [reflexivity | discriminate].
Qed.

(** X3 -- payload capacity.  For a fixed-size command and a circuit id
    that fits, [Cell._pack] returns a buffer exactly when the payload has
    at most 509 bytes, at every link version: the two extra bytes of the
    longer cell of link versions above 3 are taken by the wider id. *)
Theorem fixed_payload_capacity_is_509 (cls : cell_class) (link_version : Z)
    (p : list byte) (circ_id : Z) :
  IS_FIXED_SIZE cls = true ->
  fits (id_format link_version) circ_id = true ->
  (exists out, Cell._pack cls link_version p circ_id = Ok out)
  <-> (List.length p <= 509)%nat.
Proof.
  intros Hfixed Hid.
  pose proof (command_value_fits cls (fixed_size_is_command cls Hfixed)) as Hcmd.
  rewrite pack_outcome, Hid, Hcmd, Hfixed. cbn [negb].
  unfold fixed_cell_len, id_width, id_format.
  destruct (link_version >? 3); cbn [Pack.size];
    match goal with
    | |- context [(?a <? ?b)%nat] => destruct (Nat.ltb_spec a b) as [Hbig|Hok]
    end;
    (split; [intros [out Hout]; try discriminate; lia
            | intros Hle; try lia; eexists; reflexivity]).
Qed.

Lemma fixed_payload_capacity_is_509_witness :
  (exists out, Cell._pack RelayCell 5 (repeat x01 509) 2147483648 = Ok out)
  /\ ~ (exists out, Cell._pack RelayCell 5 (repeat x01 510) 2147483648 = Ok out).
Proof.
  split.
  - apply (fixed_payload_capacity_is_509 RelayCell 5 (repeat x01 509) 2147483648);
      [reflexivity | reflexivity | vm_compute; lia].
  - intros H.
    apply (fixed_payload_capacity_is_509 RelayCell 5 (repeat x01 510) 2147483648)
      in H; [| reflexivity | reflexivity].
    vm_compute in H. lia.
Defined.

(** ** Distinct cells, distinct bytes *)

Lemma app_same_length_inv {A : Type} (a b x y : list A) :
  List.length a = List.length b -> a ++ x = b ++ y -> a = b /\ x = y.
Proof.
  revert b. induction a as [|h a IH]; intros [|k b] Hlen Heq;
    try discriminate Hlen.
  - now split.
  - cbn [app] in Heq. injection Heq as -> Heq.
    destruct (IH b) as [-> ->]; [now injection Hlen | exact Heq | now split].
Qed.

Lemma value_injective (a b : cell_class) :
  In a commands -> In b commands -> VALUE a = VALUE b -> a = b.
Proof.
  rewrite !command_iff_value_fits.
  destruct a, b; cbn; intros Ha Hb Hv;
    try reflexivity; discriminate.
Qed.

Lemma byte_of_command_injective (a b : cell_class) :
  In a commands -> In b commands ->
  byte_of_Z (VALUE a) = byte_of_Z (VALUE b) -> a = b.
Proof.
  intros Ha Hb Heq. apply value_injective; try assumption.
  apply (f_equal Z_of_byte) in Heq. rewrite !Z_of_byte_of_Z in Heq.
  pose proof (proj1 (fits_range _ _) (command_value_fits a Ha)) as Ra.
  pose proof (proj1 (fits_range _ _) (command_value_fits b Hb)) as Rb.
  cbn in Ra, Rb. rewrite !Z.mod_small in Heq by lia. exact Heq.
Qed.

(** What a returned buffer tells about the arguments. *)
Lemma pack_ok_inv (cls : cell_class) (link_version : Z) (p : list byte)
    (circ_id : Z) (out : list byte) :
  Cell._pack cls link_version p circ_id = Ok out ->
  In cls commands
  /\ fits (id_format link_version) circ_id = true
  /\ (if IS_FIXED_SIZE cls then True else fits Pack.SHORT (len p) = true)
  /\ out = be_bytes (id_width link_version) circ_id
           ++ [byte_of_Z (VALUE cls)]
           ++ (if IS_FIXED_SIZE cls
               then p ++ padding link_version cls p
               else be_bytes 2 (len p) ++ p).
Proof.
  rewrite pack_outcome, command_iff_value_fits. unfold header.
  destruct (fits (id_format link_version) circ_id); [|discriminate].
  destruct (fits Pack.CHAR (VALUE cls)); [|discriminate]. cbn [negb].
  destruct (IS_FIXED_SIZE cls).
  - destruct (_ <? _)%nat; [discriminate|]. intros [= <-].
    rewrite <- app_assoc. repeat split.
  - destruct (fits Pack.SHORT (len p)); [|discriminate]. intros [= <-].
    rewrite <- app_assoc. repeat split.
Qed.

(** X4 -- at one link version, a buffer comes from one command and one
    circuit id only: two calls of [Cell._pack] that return the same bytes
    had the same class and the same circuit id; their payloads are equal
    for a variable-size command, and equal once padded with zeros to
    capacity for a fixed-size command. *)
Theorem pack_is_injective (link_version : Z) (cls1 cls2 : cell_class)
    (p1 p2 : list byte) (c1 c2 : Z) (out : list byte) :
  Cell._pack cls1 link_version p1 c1 = Ok out ->
  Cell._pack cls2 link_version p2 c2 = Ok out ->
  cls1 = cls2 /\ c1 = c2
  /\ if IS_FIXED_SIZE cls1
     then p1 ++ padding link_version cls1 p1 = p2 ++ padding link_version cls2 p2
     else p1 = p2.
Proof.
  intros H1 H2.
  apply pack_ok_inv in H1 as (Hin1 & Hid1 & Hlen1 & ->).
  apply pack_ok_inv in H2 as (Hin2 & Hid2 & Hlen2 & Heq).
  apply app_same_length_inv in Heq as [Hids Heq];
    [| now rewrite !be_bytes_length].
  apply app_same_length_inv in Heq as [Hcmd Heq]; [| reflexivity].
  assert (cls1 = cls2) as <-
    by (apply byte_of_command_injective; congruence).
  assert (c1 = c2) as <-.
  { apply (f_equal be_value) in Hids.
    rewrite !be_value_be_bytes in Hids by (now apply fits_range). exact Hids. }
  repeat split.
  destruct (IS_FIXED_SIZE cls1); [exact Heq|].
  apply app_same_length_inv in Heq as [_ Heq];
    [exact Heq | now rewrite !be_bytes_length].
Qed.

(** Two fixed-size payloads that differ by trailing zeros give the same
    cell. *)
Lemma pack_is_injective_witness :
  Cell._pack NetinfoCell 3 [x01] 0 = Cell._pack NetinfoCell 3 [x01; x00] 0
  /\ [x01] ++ padding 3 NetinfoCell [x01]
     = [x01; x00] ++ padding 3 NetinfoCell [x01; x00].
Proof.
  assert (H1 : Cell._pack NetinfoCell 3 [x01] 0
               = Ok ([x00; x00; x08; x01] ++ repeat x00 508))
    by (vm_compute; reflexivity).
  assert (H2 : Cell._pack NetinfoCell 3 [x01; x00] 0
               = Ok ([x00; x00; x08; x01] ++ repeat x00 508))
    by (vm_compute; reflexivity).
  split; [now rewrite H1, H2|].
  apply (pack_is_injective 3 NetinfoCell NetinfoCell [x01] [x01; x00] 0 0 _
           H1 H2).
Defined.

(** ** Link versions *)

Lemma long_id_of_short (circ_id : Z) :
  fits Pack.SHORT circ_id = true ->
  be_bytes 4 circ_id = x00 :: x00 :: be_bytes 2 circ_id.
Proof.
  intros H. apply fits_range in H. cbn [Pack.size] in H.
  change (8 * Z.of_nat 2) with 16 in H.
  cbn [be_bytes]. rewrite !Z.shiftr_div_pow2 by lia.
  assert (H24 : circ_id / 2 ^ (8 * Z.of_nat 3) = 0)
    by (apply Z.div_small; change (2 ^ (8 * Z.of_nat 3)) with 16777216; lia).
  assert (H16 : circ_id / 2 ^ (8 * Z.of_nat 2) = 0)
    by (apply Z.div_small; change (2 ^ (8 * Z.of_nat 2)) with 65536; lia).
  rewrite H24, H16. reflexivity.
Qed.

(** X5 -- the two id widths agree on short ids.  When the circuit id
    fits two bytes, the cell [Cell._pack] returns at a link version above
    3 is the cell it returns at a link version of 3 or below with two
    zero bytes in front: same command byte, same payload, same amount of
    padding. *)
Theorem long_id_cell_extends_short_id_cell (cls : cell_class)
    (old_version new_version : Z) (p : list byte) (circ_id : Z)
    (out : list byte) :
  old_version <= 3 -> 3 < new_version ->
  fits Pack.SHORT circ_id = true ->
  Cell._pack cls old_version p circ_id = Ok out ->
  Cell._pack cls new_version p circ_id = Ok (x00 :: x00 :: out).
Proof.
  intros Hold Hnew Hshort.
  assert (Ho : (old_version >? 3) = false) by lia.
  assert (Hn : (new_version >? 3) = true) by lia.
  assert (Hlong : fits Pack.LONG circ_id = true).
  { apply fits_range in Hshort. apply fits_range. cbn [Pack.size] in *.
    change (2 ^ (8 * Z.of_nat 2)) with 65536 in Hshort.
    change (2 ^ (8 * Z.of_nat 4)) with 4294967296. lia. }
  rewrite !pack_outcome.
  unfold header, padding, fixed_cell_len, id_width, id_format.
  rewrite Ho, Hn, Hshort, Hlong. cbn [negb Pack.size].
  destruct (fits Pack.CHAR (VALUE cls)); cbn [negb]; [|discriminate].
  rewrite (long_id_of_short circ_id Hshort).
  destruct (IS_FIXED_SIZE cls).
  - destruct (Nat.ltb_spec 512 (3 + List.length p)) as [Hbig|Hok];
      [discriminate|].
    destruct (Nat.ltb_spec 514 (5 + List.length p)) as [Hbig'|_]; [lia|].
    intros [= <-]. reflexivity.
  - destruct (fits Pack.SHORT (len p)); [|discriminate].
    intros [= <-]. reflexivity.
Qed.

Lemma long_id_cell_extends_short_id_cell_witness :
  Cell._pack VPaddingCell 3 [x07] 1 = Ok [x00; x01; x80; x00; x01; x07]
  /\ Cell._pack VPaddingCell 4 [x07] 1
     = Ok [x00; x00; x00; x01; x80; x00; x01; x07].
Proof.
  split; [reflexivity|].
  apply (long_id_cell_extends_short_id_cell VPaddingCell 3 4 [x07] 1);
    [lia | lia | reflexivity | reflexivity].
Defined.

(** ** Circuit cells *)

(** X6 -- [CircuitCell._pack] never returns a buffer.  Called with an
    integer circuit id, or with [None] for a class whose name does not
    start with CREATE, it raises the ValueError "... cells require a
    circ_id"; called with [None] for a class whose name starts with
    CREATE it raises [struct.error].  So no class that inherits from
    [CircuitCell] can be packed through its own [_pack]: whenever
    [cls._pack] returns, the class is not circuit-scoped. *)
Theorem circuit_pack_never_returns (cls : cell_class) (link_version : Z)
    (p : list byte) (circ_id : option Z) :
  CircuitCell._pack cls link_version p circ_id
  = Raise (if is_None circ_id && String.prefix "CREATE" (NAME cls)
           then StructError
           else ValueError (NAME cls ++ " cells require a circ_id")%string)
  /\ forall out,
       cls_pack cls link_version p circ_id = Ok out -> for_circuit cls = false.
Proof.
  assert (H : CircuitCell._pack cls link_version p circ_id
              = Raise (if is_None circ_id && String.prefix "CREATE" (NAME cls)
                       then StructError
                       else ValueError
                              (NAME cls ++ " cells require a circ_id")%string)).
  { unfold CircuitCell._pack.
    destruct (is_None circ_id && String.prefix "CREATE" (NAME cls));
      [apply base_pack_raises | reflexivity]. }
  split; [exact H|].
  intros out. unfold cls_pack.
  destruct (for_circuit cls); [rewrite H; discriminate | reflexivity].
Qed.

Lemma circuit_pack_never_returns_witness :
  cls_pack VersionsCell 3 [] None = Ok [x00; x00; x07; x00; x00]
  /\ for_circuit VersionsCell = false.
Proof.
  split; [reflexivity|].
  apply (proj2 (circuit_pack_never_returns VersionsCell 3 [] None)
           [x00; x00; x07; x00; x00]).
  reflexivity.
Defined.

(** ** What the lookups can return *)

Lemma find_skips_non_matching {A : Type} (f : A -> bool) (l1 l2 : list A) :
  Forall (fun x => f x = false) l1 -> find f (l1 ++ l2) = find f l2.
Proof.
  induction 1 as [|x l Hx _ IH]; cbn [app find]; [reflexivity|].
  now rewrite Hx.
Qed.

(** X7 -- a lookup only returns what was asked for.  The object
    [by_value] returns is a cell class whose [VALUE] is the queried
    value; the object [by_name] returns is a cell class whose [NAME] is
    the queried name, unless the name is the [getattr] sentinel, in which
    case it may be a member that is no cell class.  Neither lookup ever
    returns [CircuitCell]: [Cell], which sorts first, answers for the
    inherited defaults. *)
Theorem lookups_return_matching_class (UNDEFINED name : string) (value : Z)
    (m : member) :
  (Cell.by_value value = Ok m ->
   exists cls, m = ClassMember cls /\ VALUE cls = value /\ cls <> CircuitCell)
  /\ (Cell.by_name UNDEFINED name = Ok m ->
      (exists cls, m = ClassMember cls /\ NAME cls = name /\ cls <> CircuitCell)
      \/ (m = OtherMember /\ name = UNDEFINED)).
Proof.
  split.
  - destruct (Z.eq_dec value (-1)) as [-> | Hne].
    + intros [= <-]. exists Cell. repeat split. discriminate.
    + unfold Cell.by_value.
      destruct (find _ module_members) as [[id m']|] eqn:Hfind; [|discriminate].
      intros [= <-]. apply find_some in Hfind as [_ Hm]. cbn [snd] in Hm.
      destruct m' as [cls|]; [|discriminate Hm].
      apply Z.eqb_eq in Hm. exists cls. repeat split; [congruence|].
      intros ->. apply Hne. exact Hm.
  - destruct (String.eqb_spec name "UNKNOWN") as [-> | Hne].
    + intros [= <-]. left. exists Cell. repeat split. discriminate.
    + unfold Cell.by_name.
      destruct (find _ module_members) as [[id m']|] eqn:Hfind; [|discriminate].
      intros [= <-]. apply find_some in Hfind as [_ Hm]. cbn [snd] in Hm.
      unfold Cell.name_matches in Hm.
      destruct m' as [cls|]; cbn [getattr_NAME] in Hm;
        apply String.eqb_eq in Hm.
      * left. exists cls. repeat split; [congruence|].
        intros ->. apply Hne. exact Hm.
      * right. now split.
Qed.

Lemma lookups_return_matching_class_witness :
  (exists cls, ClassMember NetinfoCell = ClassMember cls
               /\ VALUE cls = 8 /\ cls <> CircuitCell)
  /\ ((exists cls, ClassMember NetinfoCell = ClassMember cls
                   /\ NAME cls = "NETINFO" /\ cls <> CircuitCell)
      \/ (ClassMember NetinfoCell = OtherMember /\ "NETINFO" = "<Undefined_ >")).
Proof.
  destruct (lookups_return_matching_class "<Undefined_ >" "NETINFO" 8
              (ClassMember NetinfoCell)) as [Hv Hn].
  split; [apply Hv | apply Hn]; reflexivity.
Defined.

(** X8 -- looking up the sentinel.  When the string used as [getattr]
    default names no cell class, [by_name] called with that very string
    does not raise: it returns the first module member that has no
    [NAME] attribute, an object that is not a cell class. *)
Theorem by_name_of_sentinel_is_no_cell (UNDEFINED : string) :
  UNDEFINED <> "UNKNOWN" -> ~ In UNDEFINED (map NAME commands) ->
  Cell.by_name UNDEFINED UNDEFINED = Ok OtherMember.
Proof.
  intros Hunk Hnotin. unfold Cell.by_name.
  rewrite <- (firstn_skipn 14 module_members).
  rewrite find_skips_non_matching.
  - cbn [skipn module_members find snd]. unfold Cell.name_matches at 1.
    cbn [getattr_NAME]. now rewrite String.eqb_refl.
  - cbn [firstn module_members].
    repeat constructor; cbn [snd]; unfold Cell.name_matches;
      cbn [getattr_NAME NAME]; apply String.eqb_neq; intros Heq;
      solve [ apply Hunk; exact Heq | apply Hnotin; rewrite Heq; simpl; tauto ].
Qed.

Lemma by_name_of_sentinel_is_no_cell_witness :
  Cell.by_name "<Undefined_ >" "<Undefined_ >" = Ok OtherMember.
Proof.
  apply (by_name_of_sentinel_is_no_cell "<Undefined_ >");
    [discriminate | simpl; intuition discriminate].
Defined.

(** ** Every outcome of [VersionsCell.pack] *)

Lemma join_shorts_outcome (versions : list Z) :
  VersionsCell.join_shorts versions
  = if forallb (fits Pack.SHORT) versions
    then Ok (flat_map (be_bytes 2) versions)
    else Raise StructError.
Proof.
  induction versions as [|v rest IH]; [reflexivity|].
  cbn [VersionsCell.join_shorts forallb flat_map]. unfold struct_pack at 1.
  destruct (fits Pack.SHORT v); cbn [bind andb]; [|reflexivity].
  rewrite IH. destruct (forallb (fits Pack.SHORT) rest); reflexivity.
Qed.

(** X9 -- [VersionsCell.pack] returns the version-3 frame of the
    versions when each of them lies in 0..65535 and there are at most
    32767 of them; in every other case it raises [struct.error].  A
    version is never truncated to sixteen bits and no ValueError can
    occur. *)
Theorem versions_pack_outcome (versions : list Z) :
  VersionsCell.pack versions
  = if forallb (fun v => (0 <=? v) && (v <=? 65535)) versions
       && (len versions <=? 32767)
    then Ok ([x00; x00; x07] ++ be_bytes 2 (2 * len versions)
             ++ flat_map (be_bytes 2) versions)
    else Raise StructError.
Proof.
  unfold VersionsCell.pack. rewrite join_shorts_outcome.
  assert (Hsame : forallb (fits Pack.SHORT) versions
                  = forallb (fun v => (0 <=? v) && (v <=? 65535)) versions).
  { induction versions as [|v rest IH]; [reflexivity|].
    cbn [forallb]. rewrite IH. f_equal. unfold fits. cbn [Pack.size].
    change (2 ^ (8 * Z.of_nat 2)) with 65536.
    destruct (0 <=? v); cbn [andb]; [|reflexivity].
    destruct (Z.ltb_spec v 65536), (Z.leb_spec v 65535); try reflexivity; lia. }
  rewrite Hsame. clear Hsame.
  destruct (forallb (fun v => (0 <=? v) && (v <=? 65535)) versions);
    cbn [bind andb]; [|reflexivity].
  rewrite pack_outcome, flat_map_shorts_length.
  assert (Hlen : fits Pack.SHORT (2 * len versions)
                 = (len versions <=? 32767)).
  { unfold fits. cbn [Pack.size].
    change (2 ^ (8 * Z.of_nat 2)) with 65536.
    assert (0 <= len versions) by (unfold len; lia).
    destruct (Z.leb_spec (len versions) 32767);
      [apply andb_true_iff; split; [apply Z.leb_le | apply Z.ltb_lt]
      | apply andb_false_iff; right; apply Z.ltb_ge]; lia. }
  rewrite Hlen.
  destruct (len versions <=? 32767); reflexivity.
Qed.

(** * stem/directory.py: sections of the authority and fallback files *)

Lemma pop_indented_splits (lines : list string) :
  fst (Authority.pop_indented lines) ++ snd (Authority.pop_indented lines)
  = lines
  /\ Forall (fun line => String.prefix " " line = true)
       (fst (Authority.pop_indented lines))
  /\ match snd (Authority.pop_indented lines) with
     | [] => True
     | line :: _ => String.prefix " " line = false
     end.
Proof.
  induction lines as [|line rest IH]; cbn [Authority.pop_indented].
  - repeat split. constructor.
  - destruct (String.prefix " " line) eqn:Hp.
    + destruct (Authority.pop_indented rest) as [section_lines left].
      cbn [fst snd] in *. destruct IH as (IH1 & IH2 & IH3).
      repeat split; [cbn [app]; now rewrite IH1 | now constructor | exact IH3].
    + cbn [fst snd]. repeat split; [constructor | exact Hp].
Qed.

(** X10 -- [Authority._pop_section] cuts the list in two without losing
    or reordering a line: the section followed by the lines left is the
    original list.  The section is empty only when the list is; all its
    lines but the first start with a space, and the first line left, if
    there is one, does not. *)
Theorem authority_pop_section_splits (lines : list string) :
  fst (Authority._pop_section lines) ++ snd (Authority._pop_section lines)
  = lines
  /\ (fst (Authority._pop_section lines) = [] <-> lines = [])
  /\ Forall (fun line => String.prefix " " line = true)
       (tl (fst (Authority._pop_section lines)))
  /\ match snd (Authority._pop_section lines) with
     | [] => True
     | line :: _ => String.prefix " " line = false
     end.
Proof.
  destruct lines as [|line rest]; cbn [Authority._pop_section].
  - repeat split; constructor.
  - pose proof (pop_indented_splits rest) as (H1 & H2 & H3).
    destruct (Authority.pop_indented rest) as [section_lines left].
    cbn [fst snd tl app] in *. rewrite H1.
    repeat split; try assumption; discriminate.
Qed.

(** X11 -- [Fallback._pop_header] cuts the list at the first line that is
    exactly "//": the header followed by the lines left is the original
    list, no header line is "//", and the first line left, if there is
    one, is "//" (it is not popped). *)
Theorem fallback_pop_header_splits (lines : list string) :
  fst (Fallback._pop_header lines) ++ snd (Fallback._pop_header lines) = lines
  /\ Forall (fun line => line <> "//") (fst (Fallback._pop_header lines))
  /\ match snd (Fallback._pop_header lines) with
     | [] => True
     | line :: _ => line = "//"
     end.
Proof.
  induction lines as [|line rest IH]; cbn [Fallback._pop_header].
  - repeat split. constructor.
  - destruct (String.eqb_spec line "//") as [-> | Hne].
    + cbn [fst snd]. repeat split. constructor.
    + destruct (Fallback._pop_header rest) as [header_lines left].
      cbn [fst snd] in *. destruct IH as (IH1 & IH2 & IH3).
      repeat split; [cbn [app]; now rewrite IH1 | now constructor | exact IH3].
Qed.

Lemma keep_unless_comma (line : string) (section_lines : list string) :
  (if String.eqb (strip line) "," then section_lines
   else line :: section_lines)
  = if kept_line line then line :: section_lines else section_lines.
Proof.
  unfold kept_line. destruct (String.eqb (strip line) ","); reflexivity.
Qed.

Lemma pop_until_div_at_divider (lines : list string) :
  Fallback.pop_until_div FALLBACK_DIV lines = ([], lines).
Proof.
  destruct lines; reflexivity.
Qed.

Lemma pop_until_div_cut (line : string) (body tail : list string) :
  ~ In FALLBACK_DIV (line :: body) ->
  Fallback.pop_until_div line (body ++ FALLBACK_DIV :: tail)
  = (filter kept_line (line :: body), tail).
Proof.
  revert line. induction body as [|next body IH]; intros line Hnotin.
  - cbn [app Fallback.pop_until_div].
    destruct (String.eqb_spec line FALLBACK_DIV) as [-> | _];
      [elim Hnotin; now left|].
    rewrite pop_until_div_at_divider, keep_unless_comma. reflexivity.
  - cbn [app Fallback.pop_until_div].
    destruct (String.eqb_spec line FALLBACK_DIV) as [-> | _];
      [elim Hnotin; now left|].
    rewrite IH by (intros H; apply Hnotin; now right).
    rewrite keep_unless_comma. reflexivity.
Qed.

Lemma pop_section_cut (body tail : list string) :
  ~ In FALLBACK_DIV body ->
  Fallback._pop_section (body ++ FALLBACK_DIV :: tail)
  = (filter kept_line body, tail).
Proof.
  intros Hnotin. destruct body as [|line body].
  - cbn [app Fallback._pop_section filter]. apply pop_until_div_at_divider.
  - cbn [app Fallback._pop_section]. now apply pop_until_div_cut.
Qed.

(** X12 -- [Fallback._pop_section] on a section closed by the divider:
    it returns the lines in front of the first divider, in order and
    without those that are a lone comma once stripped, and leaves exactly
    the lines behind that divider; the divider itself is dropped. *)
Theorem fallback_pop_section_up_to_divider (body tail : list string) :
  ~ In FALLBACK_DIV body ->
  Fallback._pop_section (body ++ FALLBACK_DIV :: tail)
  = (filter kept_line body, tail)
  /\ ~ In FALLBACK_DIV (fst (Fallback._pop_section (body ++ FALLBACK_DIV :: tail)))
  /\ Forall (fun line => strip line <> ",")
       (fst (Fallback._pop_section (body ++ FALLBACK_DIV :: tail))).
Proof.
  intros Hnotin. rewrite (pop_section_cut body tail Hnotin). cbn [fst].
  repeat split.
  - intros H. apply filter_In in H. now apply Hnotin.
  - apply Forall_forall. intros line H. apply filter_In in H as [_ H].
    unfold kept_line in H. apply negb_true_iff, String.eqb_neq in H. exact H.
Qed.

Lemma fallback_pop_section_up_to_divider_witness :
  Fallback._pop_section
    [ "first"; " , "; "/* nickname=a */"; "/* ===== */"; "second" ]
  = ([ "first"; "/* nickname=a */" ], [ "second" ]).
Proof.
  apply (fallback_pop_section_up_to_divider
           [ "first"; " , "; "/* nickname=a */" ] [ "second" ]).
  simpl. intuition discriminate.
Defined.

Lemma pop_until_div_unterminated (line : string) (lines : list string) :
  ~ In FALLBACK_DIV (line :: lines) ->
  Fallback.pop_until_div line lines
  = (filter kept_line (removelast (line :: lines)), []).
Proof.
  revert line. induction lines as [|next rest IH]; intros line Hnotin;
    [reflexivity|].
  cbn [Fallback.pop_until_div].
  destruct (String.eqb_spec line FALLBACK_DIV) as [-> | _];
    [elim Hnotin; now left|].
  rewrite IH by (intros H; apply Hnotin; now right).
  rewrite keep_unless_comma. reflexivity.
Qed.

(** X13 -- [Fallback._pop_section] on lines without any divider: it
    empties the list and returns the kept lines of all but the last
    line.  The last line of an unterminated section is popped and never
    returned. *)
Theorem fallback_pop_section_drops_last_line (lines : list string) :
  ~ In FALLBACK_DIV lines ->
  Fallback._pop_section lines = (filter kept_line (removelast lines), []).
Proof.
  intros Hnotin. destruct lines as [|line rest]; [reflexivity|].
  cbn [Fallback._pop_section]. now apply pop_until_div_unterminated.
Qed.

Lemma fallback_pop_section_drops_last_line_witness :
  Fallback._pop_section [ "first"; "second" ] = ([ "first" ], []).
Proof.
  apply (fallback_pop_section_drops_last_line [ "first"; "second" ]).
  simpl. intuition discriminate.
Defined.

(** ** The generator over sections *)






(** X16 -- an empty section ends the fallback entries.  When the lines in
    front of the first divider are all lone commas (or there are none:
    the list starts with a divider), the generator yields nothing at
    all, whatever follows that divider. *)
Theorem fallback_entries_end_at_empty_section (A : Type)
    (match_with : list string -> A) (fuel : nat) (body tail : list string) :
  ~ In FALLBACK_DIV body -> filter kept_line body = [] ->
  _directory_entries A match_with Fallback._pop_section fuel
    (body ++ FALLBACK_DIV :: tail)
  = [].
Proof.
  intros Hnotin Hnone. destruct fuel; [reflexivity|].
  cbn [_directory_entries].
  now rewrite (pop_section_cut body tail Hnotin), Hnone.
Qed.

Lemma fallback_entries_end_at_empty_section_witness :
  _directory_entries nat (@List.length string) Fallback._pop_section 9
    [ "/* ===== */"; "b"; "c"; "/* ===== */" ]
  = [].
Proof.
  apply (fallback_entries_end_at_empty_section nat (@List.length string) 9
           [] [ "b"; "c"; "/* ===== */" ]);
    [simpl; tauto | reflexivity].
Defined.
